(** * celery.app.builtins: the chord unlock task

    A shallow embedding of [add_unlock_chord_task] / [unlock_chord] from
    [celery/app/builtins.py].  The task polls the header group of a chord;
    when the group is ready it joins the members and applies the callback,
    otherwise it retries itself after [interval].

    Python effects are made explicit: every call to a collaborator is
    recorded as an [event] of a trace, and exceptions are carried by a
    result type, so that [try/except/else] and [raise] read as in the
    source. *)

From Stdlib Require Import QArith.
From stdpp Require Import base list strings gmap.

Local Close Scope Q_scope.
Local Open Scope string_scope.
Local Open Scope list_scope.

(** ** Python values *)

(** An exception instance, as far as this module looks at it: its class
    and the text [repr(exc)] produces (the [{!r}] conversion of
    [str.format]).  Only instances of [Exception] are modelled, which is
    what the [except Exception] clauses of the source catch. *)
Record exn := Exn { exn_class : string; exn_repr : string }.

Definition repr (e : exn) : string := exn_repr e.

(** A value stored for a task: a return value, or an exception instance
    (what a join with [propagate=False] puts in the list). *)
Inductive pyval :=
| PyNone
| PyInt (z : Z)
| PyStr (s : string)
| PyExc (e : exn).

(** The callback argument: the serialized (dict) form found in the task
    message, or a [Signature] object bound to an app. *)
Inductive callback :=
| SigDict (task : string) (args : list pyval)
| Signature (task : string) (args : list pyval).

(** A serialized result (the tuple form) and the handle made from it. *)
Record result_tuple := ResultTuple { rt_id : string }.
Record AsyncResult := MkAsyncResult { id : string }.

(** A [GroupResult] as [unlock_chord] uses it: the answers of the methods
    it calls.  [join]/[join_native] either return the list of values or
    raise. *)
Inductive res (A : Type) :=
| Ok (a : A)
| Raise (e : exn).
Arguments Ok {A} a.
Arguments Raise {A} e.

Record GroupResultObj := {
  gr_id : string;
  gr_results : list AsyncResult;
  supports_native_join : bool;
  ready : bool;
  join : Q → bool → res (list pyval);
  join_native : Q → bool → res (list pyval);
  _failed_join_report : list AsyncResult
}.

(** ** Traces *)

(** What is re-sent when the task retries itself: the arguments of the
    current request, the retry count and the delay. *)
Record attempt := {
  at_group_id : string;
  at_callback : callback;
  at_interval : option Q;
  at_propagate : option bool;
  at_max_retries : option Z;
  at_result : option (list result_tuple);
  at_retries : Z;
  at_countdown : Q
}.

Inductive event :=
| EvMaybeSignature (cb : callback)
| EvReady (group_id : string)
| EvAllowJoin (entered : bool)
| EvJoin (native : bool) (timeout : Q) (propagate : bool)
| EvFailedJoinReport
| EvLogError (group_id : string) (exc : exn)
| EvDelay (cb : callback) (ret : list pyval)
| EvChordError (cb : callback) (reason : string)
| EvApplyAsync (a : attempt).

(** ** A writer and exception monad *)

Definition M (A : Type) : Type := list event * res A.

Definition mret {A} (a : A) : M A := ([], Ok a).

Definition mbind {A B} (m : M A) (f : A → M B) : M B :=
  match m with
  | (t, Ok a) => let '(t', r) := f a in (t ++ t', r)
  | (t, Raise e) => (t, Raise e)
  end.

Definition emit (e : event) : M unit := ([e], Ok tt).

Definition raise {A} (e : exn) : M A := ([], Raise e).

(** [call e r]: a collaborator is called (event [e]) and answers [r]. *)
Definition call {A} (e : event) (r : res A) : M A := ([e], r).

(** [try: body except Exception as exc: handler exc else: orelse v] *)
Definition try_except_else {A B} (body : M A) (handler : exn → M B)
    (orelse : A → M B) : M B :=
  match body with
  | (t, Ok a) => let '(t', r) := orelse a in (t ++ t', r)
  | (t, Raise e) => let '(t', r) := handler e in (t ++ t', r)
  end.

(** [with allow_join_result(): body]: the context manager is left on
    both the normal and the exceptional exit. *)
Definition with_allow_join_result {A} (body : M A) : M A :=
  let '(t, r) := body in (EvAllowJoin true :: t ++ [EvAllowJoin false], r).

Notation "'do' x <~ m 'in' k" := (mbind m (λ x, k))
  (at level 10, x name, m at level 100, k at level 200).
Notation "'run' m 'in' k" := (mbind m (λ _, k))
  (at level 10, m at level 100, k at level 200).

Definition trace {A} (m : M A) : list event := fst m.
Definition outcome {A} (m : M A) : res A := snd m.

(** ** Collaborators *)

(** The app as the task sees it at some moment: its configuration, the
    result classes and the transport behind [callback.delay].  The result
    store is behind [GroupResult]; [apply_delay] answers whether the
    submission of the callback raises. *)
Record App := {
  CELERY_CHORD_PROPAGATES : bool;
  GroupResult : string → list AsyncResult → GroupResultObj;
  apply_delay : callback → list pyval → res unit
}.

(** Modelled from the spec: [celery.canvas.maybe_signature], which is not
    part of this module.  The spec calls it an idempotent resolution of
    the callback reference: the serialized form becomes a [Signature], a
    [Signature] stays what it is. *)
Definition signature_of (d : callback) : callback :=
  match d with
  | SigDict t a => Signature t a
  | Signature t a => Signature t a
  end.

Definition maybe_signature (d : callback) : M callback :=
  call (EvMaybeSignature d) (Ok (signature_of d)).

(** [celery.result.result_from_tuple]: the handle of a serialized
    result. *)
Definition result_from_tuple (r : result_tuple) : AsyncResult :=
  MkAsyncResult (rt_id r).

(** The request the task is running for: the arguments it was sent with
    and the number of retries so far. *)
Record Request := {
  retries : Z
}.

Definition TypeError_not_iterable : exn :=
  Exn "TypeError" "TypeError('NoneType object is not iterable',)".

Definition MaxRetriesExceededError : exn :=
  Exn "MaxRetriesExceededError" "MaxRetriesExceededError()".

Definition Retry : exn := Exn "Retry" "Retry()".

(** Iterating over the [result] argument, whose default is [None]. *)
Definition iter {A} (o : option (list A)) : M (list A) :=
  match o with
  | Some l => mret l
  | None => raise TypeError_not_iterable
  end.

(** ** The task *)

(** The options of the [@app.task] decorator of [unlock_chord]. *)
Definition task_max_retries : option Z := None.
Definition default_retry_delay : Q := 1%Q.

(** Modelled from the spec: [Task.retry], which is not part of this
    module.  The retry count of the request is incremented; a bounded
    budget ([max_retries], or the task's own when the argument is [None])
    that is exhausted makes the call raise instead of scheduling; otherwise
    the task is sent again with the arguments of the current request and
    the [Retry] exception is handed back to be raised. *)
Definition retry (request : Request) (sent : Z → Q → attempt)
    (countdown : Q) (max_retries : option Z) : M exn :=
  let retries := (retries request + 1)%Z in
  let max_retries :=
    match max_retries with None => task_max_retries | Some n => Some n end in
  match max_retries with
  | Some n =>
      if (n <? retries)%Z then raise MaxRetriesExceededError
      else run emit (EvApplyAsync (sent retries countdown)) in mret Retry
  | None => run emit (EvApplyAsync (sent retries countdown)) in mret Retry
  end.

(** ['Dependency {0.id} raised {1!r}'.format(culprit, exc)] *)
Definition dependency_reason (culprit : AsyncResult) (exc : exn) : string :=
  "Dependency " +:+ id culprit +:+ " raised " +:+ repr exc.

(** ['Callback error: {0!r}'.format(exc)] *)
Definition callback_reason (exc : exn) : string :=
  "Callback error: " +:+ repr exc.

(** What the two [except] handlers of the task call, and how each call
    answers.  None of these calls is inside a [try] of its own (the one
    around [next] only catches [StopIteration]), so an exception of theirs
    leaves the task: the generator behind [_failed_join_report] may raise
    when it is advanced, [logger.error] may raise, and so may
    [app.backend.chord_error_from_stack]. *)
Record Reporting := {
  failed_join_report_raises : option exn;
  logger_error_answer : string → exn → res unit;
  chord_error_answer : callback → string → res unit
}.

(** [next(deps._failed_join_report())]: the first item of the generator,
    [None] standing for [StopIteration]. *)
Definition next {A} (r : Reporting) (g : list A) : M (option A) :=
  call EvFailedJoinReport
       match failed_join_report_raises r with
       | Some e => Raise e
       | None => Ok (head g)
       end.

Definition chord_error_from_stack (r : Reporting) (cb : callback)
    (reason : string) : M unit :=
  call (EvChordError cb reason) (chord_error_answer r cb reason).

Definition delay (app : App) (cb : callback) (ret : list pyval) : M unit :=
  call (EvDelay cb ret) (apply_delay app cb ret).

Definition logger_error (r : Reporting) (group_id : string) (exc : exn)
    : M unit :=
  call (EvLogError group_id exc) (logger_error_answer r group_id exc).

(** The handlers' calls all going through. *)
Definition reporting_works : Reporting :=
  {| failed_join_report_raises := None;
     logger_error_answer := λ _ _, Ok tt;
     chord_error_answer := λ _ _, Ok tt |}.

Section unlock_chord.
(** [reporting] is how the calls of the handlers answer;
    [default_propagate] is the variable of the enclosing
    [add_unlock_chord_task]; [app] is the app at the time of the call. *)
Variable reporting : Reporting.
Variable default_propagate : bool.
Variable app : App.
Variable request : Request.

Definition unlock_chord_on (group_id : string) (callback : callback)
    (interval : option Q) (propagate : option bool)
    (max_retries : option Z) (result : option (list result_tuple)) : M unit :=
  let sent r c :=
    {| at_group_id := group_id; at_callback := callback;
       at_interval := interval; at_propagate := propagate;
       at_max_retries := max_retries; at_result := result;
       at_retries := r; at_countdown := c |} in
  let propagate :=
    match propagate with None => default_propagate | Some p => p end in
  let interval :=
    match interval with None => default_retry_delay | Some i => i end in
  do callback <~ maybe_signature callback in
  do rs <~ iter result in
  let deps := GroupResult app group_id (map result_from_tuple rs) in
  let j := if supports_native_join deps
           then (true, join_native deps) else (false, join deps) in
  do is_ready <~ call (EvReady group_id) (Ok (ready deps)) in
  if is_ready then
    do callback <~ maybe_signature callback in
    try_except_else
      (with_allow_join_result
         (call (EvJoin j.1 3%Q propagate) (j.2 3%Q propagate)))
      (λ exc,
         do culprit <~ next reporting (_failed_join_report deps) in
         let reason :=
           match culprit with
           | Some culprit => dependency_reason culprit exc
           | None => repr exc
           end in
         run logger_error reporting group_id exc in
         chord_error_from_stack reporting callback reason)
      (λ ret,
         try_except_else (delay app callback ret)
           (λ exc,
              run logger_error reporting group_id exc in
              chord_error_from_stack reporting callback (callback_reason exc))
           (λ _, mret tt))
  else
    do exc <~ retry request sent interval max_retries in
    raise exc.
End unlock_chord.

(** The task with the calls of the handlers going through: the failed-join
    report can be read, the logger logs and the backend stores the error of
    the chord. *)
Definition unlock_chord : bool → App → Request → string → callback →
    option Q → option bool → option Z → option (list result_tuple) → M unit :=
  unlock_chord_on reporting_works.

(** [add_unlock_chord_task(app)]: the configuration is read once, here,
    and the task closes over the value. *)
Definition add_unlock_chord_task (app : App) :=
  let default_propagate := CELERY_CHORD_PROPAGATES app in
  unlock_chord default_propagate.

(** ** The result store behind [GroupResult] *)

Module Store.

(** The state of one task in the result backend. *)
Inductive task_state :=
| PENDING
| STARTED
| SUCCESS (value : pyval)
| FAILURE (cause : exn).

(** What the backend holds for a task id: its state, how long fetching
    its value takes and when the task finished. *)
Record meta := {
  state : task_state;
  latency : Q;
  done_at : Q
}.

(** The backend: the stored metas and whether it offers a bulk
    fetch. *)
Record t := {
  metas : gmap string meta;
  native : bool
}.

Definition TimeoutError : exn :=
  Exn "TimeoutError" "TimeoutError('The operation timed out.',)".

(** An id the backend has never heard of is pending. *)
Definition get_state (s : t) (r : AsyncResult) : task_state :=
  match metas s !! id r with
  | Some m => state m
  | None => PENDING
  end.

Definition get_latency (s : t) (r : AsyncResult) : Q :=
  match metas s !! id r with
  | Some m => latency m
  | None => 0%Q
  end.

Definition is_ready (s : t) (r : AsyncResult) : bool :=
  match get_state s r with
  | SUCCESS _ | FAILURE _ => true
  | PENDING | STARTED => false
  end.

Definition is_failed (s : t) (r : AsyncResult) : bool :=
  match get_state s r with
  | FAILURE _ => true
  | _ => false
  end.

(** The outcome of a member as one entry of a joined list. *)
Definition collect (s : t) (propagate : bool) (r : AsyncResult)
    : res pyval :=
  match get_state s r with
  | SUCCESS v => Ok v
  | FAILURE c => if propagate then Raise c else Ok (PyExc c)
  | PENDING | STARTED => Raise TimeoutError
  end.

(** Modelled from the spec: the generic join of [GroupResult], which is
    not part of this module.  Members are fetched one after the other in
    member order; the time spent is bounded by [timeout], and going over
    it raises instead of returning what was fetched so far; with
    [propagate] the first failure met aborts the join, without it the
    failure is an entry of the list. *)
Fixpoint join_from (s : t) (elapsed timeout : Q) (propagate : bool)
    (members : list AsyncResult) : res (list pyval) :=
  match members with
  | [] => Ok []
  | r :: rest =>
      let elapsed := (elapsed + get_latency s r)%Q in
      if negb (Qle_bool elapsed timeout) then Raise TimeoutError
      else
        match collect s propagate r with
        | Raise e => Raise e
        | Ok v =>
            match join_from s elapsed timeout propagate rest with
            | Raise e => Raise e
            | Ok vs => Ok (v :: vs)
            end
        end
  end.

Definition join_generic (s : t) (members : list AsyncResult) (timeout : Q)
    (propagate : bool) : res (list pyval) :=
  join_from s 0%Q timeout propagate members.

(** Modelled from the spec: the native join, one bulk fetch of all
    members whose outcomes are then laid out in member order.  The
    members are fetched together, so the fetch is as slow as its slowest
    member. *)
Fixpoint collect_all (s : t) (propagate : bool)
    (members : list AsyncResult) : res (list pyval) :=
  match members with
  | [] => Ok []
  | r :: rest =>
      match collect s propagate r with
      | Raise e => Raise e
      | Ok v =>
          match collect_all s propagate rest with
          | Raise e => Raise e
          | Ok vs => Ok (v :: vs)
          end
      end
  end.

Definition join_bulk (s : t) (members : list AsyncResult) (timeout : Q)
    (propagate : bool) : res (list pyval) :=
  if existsb (λ r, negb (Qle_bool (get_latency s r) timeout)) members
  then Raise TimeoutError
  else collect_all s propagate members.

(** Modelled from the spec: [GroupResult(group_id, results)] over this
    backend.  The group is ready when all its members are. *)
Definition group_result (s : t) (group_id : string)
    (results : list AsyncResult) : GroupResultObj :=
  {| gr_id := group_id;
     gr_results := results;
     supports_native_join := native s;
     ready := forallb (is_ready s) results;
     join := join_generic s results;
     join_native := join_bulk s results;
     _failed_join_report := filter (λ r, is_failed s r = true) results |}.

(** The outcome of a member that finished, as the callback sees it. *)
Definition outcome_of (s : t) (r : AsyncResult) : pyval :=
  match get_state s r with
  | SUCCESS v => v
  | FAILURE c => PyExc c
  | PENDING | STARTED => PyNone
  end.

(** An app over this backend. *)
Definition app (s : t) (conf_propagates : bool)
    (transport : callback → list pyval → res unit) : App :=
  {| CELERY_CHORD_PROPAGATES := conf_propagates;
     GroupResult := group_result s;
     apply_delay := transport |}.



End Store.

(** ** Running the task over time *)

(** The events the claims count. *)
Definition is_delay (e : event) : bool :=
  match e with EvDelay _ _ => true | _ => false end.
Definition is_chord_error (e : event) : bool :=
  match e with EvChordError _ _ => true | _ => false end.
Definition is_join (e : event) : bool :=
  match e with EvJoin _ _ _ => true | _ => false end.
Definition is_apply_async (e : event) : bool :=
  match e with EvApplyAsync _ => true | _ => false end.
Definition is_maybe_signature (e : event) : bool :=
  match e with EvMaybeSignature _ => true | _ => false end.
Definition is_terminal (e : event) : bool :=
  is_delay e || is_chord_error e.

Definition count (p : event → bool) (t : list event) : nat :=
  length (List.filter p t).

(** The attempt a trace has scheduled, if any. *)
Fixpoint scheduled (t : list event) : option attempt :=
  match t with
  | [] => None
  | EvApplyAsync a :: _ => Some a
  | _ :: t => scheduled t
  end.

(** Running a sent attempt: the worker calls the task with the arguments
    of the message and the retry count in the request. *)
Definition run_attempt (default_propagate : bool) (app : App) (a : attempt)
    : M unit :=
  unlock_chord default_propagate app {| retries := at_retries a |}
    (at_group_id a) (at_callback a) (at_interval a) (at_propagate a)
    (at_max_retries a) (at_result a).

(** The retry chain of a chord: the first attempt runs against the first
    app state, and each attempt that schedules a retry is followed by the
    run of that retry against the next state.  The list of states bounds
    the observation. *)
Fixpoint lifetime (default_propagate : bool) (apps : list App) (a : attempt)
    : list event :=
  match apps with
  | [] => []
  | app :: later =>
      let t := trace (run_attempt default_propagate app a) in
      t ++ match scheduled t with
           | Some a' => lifetime default_propagate later a'
           | None => []
           end
  end.

(** The task called again and again with the same message, whatever the
    earlier calls did. *)
Fixpoint reinvoke (default_propagate : bool) (apps : list App) (a : attempt)
    : list event :=
  match apps with
  | [] => []
  | app :: later =>
      trace (run_attempt default_propagate app a)
        ++ reinvoke default_propagate later a
  end.


(** ** Names for the parts of one call *)

Definition effective_propagate (default_propagate : bool)
    (propagate : option bool) : bool :=
  match propagate with Some p => p | None => default_propagate end.

Definition effective_interval (interval : option Q) : Q :=
  match interval with Some i => i | None => default_retry_delay end.

(** [deps] of a call. *)
Definition deps_of (app : App) (group_id : string) (rs : list result_tuple)
    : GroupResultObj :=
  GroupResult app group_id (map result_from_tuple rs).

(** The message a retry of a call sends. *)
Definition resend (group_id : string) (cb : callback) (interval : option Q)
    (propagate : option bool) (max_retries : option Z)
    (result : option (list result_tuple)) (r : Z) (c : Q) : attempt :=
  {| at_group_id := group_id; at_callback := cb;
     at_interval := interval; at_propagate := propagate;
     at_max_retries := max_retries; at_result := result;
     at_retries := r; at_countdown := c |}.

(** The events of a call on a ready group, up to the end of the join. *)
Definition joining (deps : GroupResultObj) (group_id : string)
    (cb : callback) (propagate : bool) : list event :=
  [ EvMaybeSignature cb; EvReady group_id;
    EvMaybeSignature (signature_of cb);
    EvAllowJoin true;
    EvJoin (supports_native_join deps) 3%Q propagate;
    EvAllowJoin false ].

(** What [j(timeout=3.0, propagate=propagate)] answers. *)
Definition the_join (deps : GroupResultObj) (propagate : bool)
    : res (list pyval) :=
  (if supports_native_join deps then join_native deps else join deps)
    3%Q propagate.

(** The reason of the [ChordError] made for a join that raised. *)
Definition member_reason (deps : GroupResultObj) (exc : exn) : string :=
  match head (_failed_join_report deps) with
  | Some culprit => dependency_reason culprit exc
  | None => repr exc
  end.

(** Whether a retry asked for by [request] is still within the budget. *)
Definition within_budget (request : Request) (max_retries : option Z)
    : bool :=
  match max_retries with
  | None => true
  | Some n => negb (n <? retries request + 1)%Z
  end.

(** The message the retry of a running attempt sends. *)
Definition next_attempt (a : attempt) : attempt :=
  resend (at_group_id a) (at_callback a) (at_interval a) (at_propagate a)
    (at_max_retries a) (at_result a) (at_retries a + 1)%Z
    (effective_interval (at_interval a)).

(** What a trace goes on with after its first terminal event. *)
Fixpoint after_terminal (t : list event) : list event :=
  match t with
  | [] => []
  | e :: t => if is_terminal e then t else after_terminal t
  end.

(** The terminal events one chord may show: at most one, or a submission
    of the callback followed by the report of its failure. *)
Definition terminal_once (t : list event) : Prop :=
  (length (List.filter is_terminal t) ≤ 1)%nat
  ∨ ∃ cb ret exc,
      List.filter is_terminal t
      = [EvDelay cb ret; EvChordError cb (callback_reason exc)].

(** The trace of [n] attempts that each find the group not ready and
    retry. *)
Fixpoint polling (n : nat) (a : attempt) : list event :=
  match n with
  | 0 => []
  | S n =>
      [ EvMaybeSignature (at_callback a); EvReady (at_group_id a);
        EvApplyAsync (next_attempt a) ] ++ polling n (next_attempt a)
  end.

(** Whether [n] more retries fit the budget of a message. *)
Definition chain_within_budget (a : attempt) (n : nat) : Prop :=
  match at_max_retries a with
  | None => True
  | Some m => (at_retries a + Z.of_nat n ≤ m)%Z
  end.

(** The app after its configuration was changed. *)
Definition reconfigured (propagates : bool) (app : App) : App :=
  {| CELERY_CHORD_PROPAGATES := propagates;
     GroupResult := GroupResult app;
     apply_delay := apply_delay app |}.

(** ** Sample chords *)

Module Sample.

Definition header : list result_tuple :=
  [ResultTuple "a"; ResultTuple "b"; ResultTuple "c"].

Definition body : callback := SigDict "tasks.tsum" [].

(** The first message of the chord "g1": all options left to their
    defaults. *)
Definition first_message : attempt :=
  resend "g1" body None None None (Some header) 0 1.

Definition bounded_message (n : Z) : attempt :=
  resend "g1" body None None (Some n) (Some header) 0 1.

Definition submits (cb : callback) (ret : list pyval) : res unit := Ok tt.

Definition OperationalError : exn :=
  Exn "OperationalError" "OperationalError('connection refused',)".

Definition broker_down (cb : callback) (ret : list pyval) : res unit :=
  Raise OperationalError.

Definition KeyError_x : exn := Exn "KeyError" "KeyError('x',)".

(** A group result with fixed answers. *)
Definition fixed_group (is_ready native : bool) (j : res (list pyval))
    (failed : list AsyncResult) (group_id : string)
    (results : list AsyncResult) : GroupResultObj :=
  {| gr_id := group_id; gr_results := results;
     supports_native_join := native; ready := is_ready;
     join := λ _ _, j; join_native := λ _ _, j;
     _failed_join_report := failed |}.

Definition app_done : App :=
  {| CELERY_CHORD_PROPAGATES := true;
     GroupResult := fixed_group true false (Ok [PyInt 1; PyInt 2; PyInt 3]) [];
     apply_delay := submits |}.

Definition app_done_broker_down : App :=
  {| CELERY_CHORD_PROPAGATES := true;
     GroupResult := fixed_group true false (Ok [PyInt 1; PyInt 2; PyInt 3]) [];
     apply_delay := broker_down |}.

Definition app_waiting : App :=
  {| CELERY_CHORD_PROPAGATES := true;
     GroupResult := fixed_group false false (Raise Store.TimeoutError) [];
     apply_delay := submits |}.

Definition app_failed : App :=
  {| CELERY_CHORD_PROPAGATES := true;
     GroupResult :=
       fixed_group true true (Raise KeyError_x) [MkAsyncResult "b"];
     apply_delay := submits |}.

(** Backends.  In [store_done] the members finished in the order c, a,
    b. *)
Definition finished (v : Z) (at_time : Q) : Store.meta :=
  {| Store.state := Store.SUCCESS (PyInt v);
     Store.latency := (1 # 2)%Q; Store.done_at := at_time |}.

Definition failed (c : exn) (at_time : Q) : Store.meta :=
  {| Store.state := Store.FAILURE c;
     Store.latency := (1 # 2)%Q; Store.done_at := at_time |}.


Definition store_done : Store.t :=
  {| Store.metas :=
       <["a" := finished 1 2%Q]>
         (<["b" := finished 2 3%Q]> (<["c" := finished 3 1%Q]> ∅));
     Store.native := false |}.

Definition store_failed : Store.t :=
  {| Store.metas :=
       <["a" := finished 1 2%Q]>
         (<["b" := failed KeyError_x 3%Q]> (<["c" := finished 2 1%Q]> ∅));
     Store.native := false |}.


Definition store_empty : Store.t :=
  {| Store.metas := ∅; Store.native := true |}.

End Sample.

(** ** More events to look for in a trace *)

Definition is_allow_join (e : event) : bool :=
  match e with EvAllowJoin _ => true | _ => false end.
Definition is_failed_join_report (e : event) : bool :=
  match e with EvFailedJoinReport => true | _ => false end.
Definition is_ready_check (e : event) : bool :=
  match e with EvReady _ => true | _ => false end.

(** ** The map tasks: [xmap] and [xstarmap] *)

Module Maps.

(** A task called inline on its positional arguments: arguments in, a
    value or an exception out. *)
Definition callable : Type := list pyval → res pyval.

(** [[f(item) for item in it]]: the items are visited in order and an
    exception leaves the comprehension at once.  Beside the result, the
    items [f] was called on are given. *)
Fixpoint comprehension {A B} (f : A → res B) (it : list A)
    : list A * res (list B) :=
  match it with
  | [] => ([], Ok [])
  | item :: rest =>
      match f item with
      | Raise e => ([item], Raise e)
      | Ok v =>
          let '(called, r) := comprehension f rest in
          (item :: called,
           match r with Ok vs => Ok (v :: vs) | Raise e => Raise e end)
      end
  end.

Section tasks.
(** [signature(task, app=app).type]: the task class behind a signature;
    the lookup raises for a task that is not registered. *)
Variable task_type : callback → res callable.

(** [xmap(task, it)]: [task(item)] for each item. *)
Definition xmap (task : callback) (it : list pyval)
    : list pyval * res (list pyval) :=
  match task_type task with
  | Raise e => ([], Raise e)
  | Ok task => comprehension (λ item, task [item]) it
  end.

(** [xstarmap(task, it)]: the task applied to each item unpacked, an
    item being the tuple of the arguments. *)
Definition xstarmap (task : callback) (it : list (list pyval))
    : list (list pyval) * res (list pyval) :=
  match task_type task with
  | Raise e => ([], Raise e)
  | Ok task => comprehension (λ item, task item) it
  end.
End tasks.

(** A registry with one task, "tasks.inc", which adds one to an integer
    and raises on anything else. *)
Definition TypeError_inc : exn :=
  Exn "TypeError" "TypeError('unsupported operand',)".

Definition NotRegistered : exn := Exn "NotRegistered" "NotRegistered()".

Definition inc : callable :=
  λ args,
    match args with
    | [PyInt z] => Ok (PyInt (z + 1))
    | _ => Raise TypeError_inc
    end.

Definition sample_registry (task : callback) : res callable :=
  match task with
  | SigDict name _ | Signature name _ =>
      if String.eqb name "tasks.inc" then Ok inc else Raise NotRegistered
  end.

End Maps.

(** ** The legacy group task *)

Module LegacyGroup.

(** What [Group.run] does to the world around it. *)
Inductive action :=
| Acquire
| Release
| ApplyAsync (stask : callback) (group_id : string) (add_to_parent : bool)
| AddTrail (result : AsyncResult).

Definition is_apply_async (a : action) : bool :=
  match a with ApplyAsync _ _ _ => true | _ => false end.
Definition is_add_trail (a : action) : bool :=
  match a with AddTrail _ => true | _ => false end.
Definition is_acquire (a : action) : bool :=
  match a with Acquire => true | _ => false end.
Definition is_release (a : action) : bool :=
  match a with Release => true | _ => false end.

Section group_run.
(** [maybe_signature(task, app=app)] and [Signature.clone(partial_args)],
    which this module only calls. *)
Variable maybe_signature : callback → callback.
Variable clone : callback → list pyval → callback.
(** Whether sending a task raises. *)
Variable apply_async : callback → res unit.
(** [get_current_worker_task()]: whether a task is being run. *)
Variable parent : bool.

(** [[stask.apply_async(group_id=group_id, producer=pub,
      add_to_parent=False) for stask in taskit]] *)
Fixpoint send_all (group_id : string) (taskit : list callback)
    : list action * res unit :=
  match taskit with
  | [] => ([], Ok tt)
  | stask :: rest =>
      match apply_async stask with
      | Raise e => ([ApplyAsync stask group_id false], Raise e)
      | Ok _ =>
          let '(t, r) := send_all group_id rest in
          (ApplyAsync stask group_id false :: t, r)
      end
  end.

(** [Group.run(tasks, result, group_id, partial_args, add_to_parent)].
    The producer is released when the [with] block is left, also by an
    exception. *)
Definition Group_run (tasks : list callback) (result : result_tuple)
    (group_id : string) (partial_args : list pyval) (add_to_parent : bool)
    : list action * res AsyncResult :=
  let result := result_from_tuple result in
  let taskit :=
    map (λ task, clone (maybe_signature task) partial_args) tasks in
  let '(t, r) := send_all group_id taskit in
  match r with
  | Raise e => (Acquire :: t ++ [Release], Raise e)
  | Ok _ =>
      (Acquire :: t ++ [Release]
         ++ (if add_to_parent && parent then [AddTrail result] else []),
       Ok result)
  end.
End group_run.

(** Partial arguments put in front of the arguments of a signature. *)
Definition prepend_args (s : callback) (partial_args : list pyval)
    : callback :=
  match s with
  | SigDict t a => SigDict t (partial_args ++ a)
  | Signature t a => Signature t (partial_args ++ a)
  end.

(** A broker that refuses the task "tasks.bad". *)
Definition refuses_bad (s : callback) : res unit :=
  match s with
  | SigDict name _ | Signature name _ =>
      if String.eqb name "tasks.bad" then Raise Sample.OperationalError
      else Ok tt
  end.

End LegacyGroup.

(** ** More sample apps *)

(** Not ready either, but with every other answer changed. *)
Definition app_waiting_elsewhere : App :=
  {| CELERY_CHORD_PROPAGATES := false;
     GroupResult :=
       Sample.fixed_group false true (Ok [PyNone]) [MkAsyncResult "z"];
     apply_delay := Sample.broker_down |}.

(** A backend that cannot store the error of the chord. *)
Definition backend_down : Reporting :=
  {| failed_join_report_raises := None;
     logger_error_answer := λ _ _, Ok tt;
     chord_error_answer := λ _ _, Raise Sample.OperationalError |}.

(** A ready group whose callback the broker refuses with a [KeyError]. *)
Definition app_delay_keyerror : App :=
  {| CELERY_CHORD_PROPAGATES := true;
     GroupResult := Sample.fixed_group true false (Ok [PyInt 1]) [];
     apply_delay := λ _ _, Raise Sample.KeyError_x |}.

(** An exception whose repr reads like the reason of a callback error,
    and a ready group whose join raises it with no failed member to
    name. *)
Definition Odd_error : exn := Exn "Odd" "Callback error: KeyError('x',)".

Definition app_odd_failure : App :=
  {| CELERY_CHORD_PROPAGATES := true;
     GroupResult := Sample.fixed_group true false (Raise Odd_error) [];
     apply_delay := Sample.submits |}.

(** [Sample.app_failed] with another generic join; the native join, the
    one in use, is the same. *)
Definition app_failed_other_join : App :=
  {| CELERY_CHORD_PROPAGATES := true;
     GroupResult := λ group_id results,
       {| gr_id := group_id; gr_results := results;
          supports_native_join := true; ready := true;
          join := λ _ _, Ok [PyInt 7];
          join_native := λ _ _, Raise Sample.KeyError_x;
          _failed_join_report := [MkAsyncResult "b"; MkAsyncResult "c"] |};
     apply_delay := Sample.submits |}.

Example sample_done :
  run_attempt true (Store.app Sample.store_done true Sample.submits)
    Sample.first_message
  = ([ EvMaybeSignature Sample.body; EvReady "g1";
       EvMaybeSignature (Signature "tasks.tsum" []);
       EvAllowJoin true; EvJoin false 3%Q true; EvAllowJoin false;
       EvDelay (Signature "tasks.tsum" []) [PyInt 1; PyInt 2; PyInt 3] ],
     Ok tt).
Proof. vm_compute. reflexivity. Qed.

(** * Properties *)

(** ** Strings and the resolution of the callback *)

Lemma string_length_app (a b : string) :
  String.length (a +:+ b) = String.length a + String.length b.
Proof.
  induction a as [|c a IH]; [reflexivity|].
  change (String c a +:+ b) with (String c (a +:+ b)). cbn. now rewrite IH.
Qed.

Lemma prefixed_differs (a s : string) : a ≠ "" → a +:+ s ≠ s.
Proof.
  intros Ha E. apply (f_equal String.length) in E.
  rewrite string_length_app in E. destruct a; [congruence | cbn in E; lia].
Qed.

Lemma signature_of_idemp (d : callback) :
  signature_of (signature_of d) = signature_of d.
Proof. now destruct d. Qed.

(** ** The retry *)

Lemma retry_within_budget request sent countdown max_retries :
  within_budget request max_retries = true →
  retry request sent countdown max_retries
  = ([EvApplyAsync (sent (retries request + 1)%Z countdown)], Ok Retry).
Proof.
  unfold within_budget, retry, task_max_retries.
  destruct max_retries as [n|]; [|reflexivity].
  intros H. apply negb_true_iff in H. now rewrite H.
Qed.

Lemma retry_exhausted request sent countdown max_retries :
  within_budget request max_retries = false →
  retry request sent countdown max_retries
  = ([], Raise MaxRetriesExceededError).
Proof.
  unfold within_budget, retry, task_max_retries.
  destruct max_retries as [n|]; [|discriminate].
  intros H. apply negb_false_iff in H. now rewrite H.
Qed.

(** ** What one call does, case by case *)

Section cases.
Variables (default_propagate : bool) (app : App) (request : Request).
Variables (group_id : string) (cb : callback).
Variables (interval : option Q) (propagate : option bool).
Variables (max_retries : option Z) (rs : list result_tuple).

Local Abbreviation deps := (deps_of app group_id rs).
Local Abbreviation flag := (effective_propagate default_propagate propagate).
Local Abbreviation sent :=
  (resend group_id cb interval propagate max_retries (Some rs)).
Local Abbreviation call_it :=
  (unlock_chord default_propagate app request group_id cb interval
     propagate max_retries (Some rs)).

Lemma unlock_chord_not_ready :
  ready deps = false →
  call_it =
    (EvMaybeSignature cb :: EvReady group_id
       :: trace (retry request sent (effective_interval interval)
                   max_retries),
     match outcome (retry request sent (effective_interval interval)
                      max_retries) with
     | Ok e | Raise e => Raise e
     end).
Proof.
  intros Hr. unfold unlock_chord, unlock_chord_on, deps_of in *. cbn.
  rewrite Hr.
  fold (resend group_id cb interval propagate max_retries (Some rs)).
  fold (effective_interval interval).
  destruct (retry request sent (effective_interval interval) max_retries)
    as [t [e|e]]; cbn; rewrite ?app_nil_r; reflexivity.
Qed.

Lemma unlock_chord_join_raised exc :
  ready deps = true →
  the_join deps flag = Raise exc →
  call_it =
    (joining deps group_id cb flag ++
       [ EvFailedJoinReport; EvLogError group_id exc;
         EvChordError (signature_of cb) (member_reason deps exc) ],
     Ok tt).
Proof.
  intros Hr Hj.
  unfold unlock_chord, unlock_chord_on, the_join, member_reason, deps_of in *.
  cbn. rewrite Hr, signature_of_idemp. unfold effective_propagate in *.
  destruct (supports_native_join _); cbn; rewrite Hj; cbn;
    destruct (head (_failed_join_report _)); reflexivity.
Qed.

Lemma unlock_chord_dispatched ret :
  ready deps = true →
  the_join deps flag = Ok ret →
  apply_delay app (signature_of cb) ret = Ok tt →
  call_it = (joining deps group_id cb flag ++ [EvDelay (signature_of cb) ret],
             Ok tt).
Proof.
  intros Hr Hj Hd. unfold unlock_chord, unlock_chord_on, the_join, deps_of in *.
  cbn. rewrite Hr, signature_of_idemp. unfold effective_propagate in *.
  destruct (supports_native_join _); cbn; rewrite Hj; cbn;
    unfold delay, call; rewrite Hd; reflexivity.
Qed.

Lemma unlock_chord_delay_raised ret exc :
  ready deps = true →
  the_join deps flag = Ok ret →
  apply_delay app (signature_of cb) ret = Raise exc →
  call_it =
    (joining deps group_id cb flag ++
       [ EvDelay (signature_of cb) ret; EvLogError group_id exc;
         EvChordError (signature_of cb) (callback_reason exc) ],
     Ok tt).
Proof.
  intros Hr Hj Hd. unfold unlock_chord, unlock_chord_on, the_join, deps_of in *.
  cbn. rewrite Hr, signature_of_idemp. unfold effective_propagate in *.
  destruct (supports_native_join _); cbn; rewrite Hj; cbn;
    unfold delay, call; rewrite Hd; reflexivity.
Qed.

End cases.

(** A call whose [result] argument was left to its default fails on the
    iteration, after the callback was resolved. *)
Lemma unlock_chord_no_result dp app request group_id cb interval propagate
    max_retries :
  unlock_chord dp app request group_id cb interval propagate max_retries None
  = ([EvMaybeSignature cb], Raise TypeError_not_iterable).
Proof. reflexivity. Qed.

(** ** A ready group *)




(** ** The handlers *)


(** What a call does once the join returned and the submission of the
    callback raised, whatever the calls of the handler answer. *)
Lemma unlock_chord_on_delay_raised r dp app request group_id cb interval
    propagate max_retries rs ret exc :
  ready (deps_of app group_id rs) = true →
  the_join (deps_of app group_id rs) (effective_propagate dp propagate)
  = Ok ret →
  apply_delay app (signature_of cb) ret = Raise exc →
  unlock_chord_on r dp app request group_id cb interval propagate max_retries
    (Some rs)
  = match logger_error_answer r group_id exc with
    | Raise e =>
        (joining (deps_of app group_id rs) group_id cb
           (effective_propagate dp propagate)
           ++ [EvDelay (signature_of cb) ret; EvLogError group_id exc],
         Raise e)
    | Ok _ =>
        (joining (deps_of app group_id rs) group_id cb
           (effective_propagate dp propagate)
           ++ [ EvDelay (signature_of cb) ret; EvLogError group_id exc;
                EvChordError (signature_of cb) (callback_reason exc) ],
         chord_error_answer r (signature_of cb) (callback_reason exc))
    end.
Proof.
  intros Hr Hj Hd. unfold unlock_chord_on, the_join, deps_of in *.
  cbn. rewrite Hr, signature_of_idemp. unfold effective_propagate in *.
  destruct (supports_native_join _); cbn; rewrite Hj; cbn;
    unfold delay, call; rewrite Hd; cbn;
    unfold logger_error, call;
    (destruct (logger_error_answer r group_id exc) as [[]|]; cbn;
     [|reflexivity]);
    unfold chord_error_from_stack, call;
    destruct (chord_error_answer r _ _) as [[]|]; reflexivity.
Qed.



(** C6, as amended.  When the join returned and the submission of the
    callback raises, the exception is caught and not passed on to the
    caller: the failed-join report is not read, and what the call raises, if
    anything, was raised by the logger or by [chord_error_from_stack].  When
    the logger answers, the call reports one [ChordError] whose reason is
    "Callback error: " followed by the repr of the cause, and ends as that
    report ends.  The reason differs from every "Dependency ... raised ..."
    reason, and from the reason a member failure with the same cause would
    get. *)
Theorem callback_error_is_reported dp app request group_id cb interval
    propagate max_retries rs ret exc :
  ready (deps_of app group_id rs) = true →
  the_join (deps_of app group_id rs) (effective_propagate dp propagate)
  = Ok ret →
  apply_delay app (signature_of cb) ret = Raise exc →
  List.filter is_terminal
    (trace (unlock_chord dp app request group_id cb interval propagate
              max_retries (Some rs)))
  = [ EvDelay (signature_of cb) ret;
      EvChordError (signature_of cb) ("Callback error: " +:+ repr exc) ]
  ∧ (∀ culprit exc',
       callback_reason exc ≠ dependency_reason culprit exc')
  ∧ (∀ deps', callback_reason exc ≠ member_reason deps' exc)
  ∧ ∀ r,
      let m := unlock_chord_on r dp app request group_id cb interval
                 propagate max_retries (Some rs) in
      count is_failed_join_report (trace m) = 0
      ∧ (logger_error_answer r group_id exc = Ok tt →
         List.filter is_terminal (trace m)
         = [ EvDelay (signature_of cb) ret;
             EvChordError (signature_of cb) ("Callback error: " +:+ repr exc) ]
         ∧ outcome m
           = chord_error_answer r (signature_of cb)
               ("Callback error: " +:+ repr exc))
      ∧ (∀ e, outcome m = Raise e →
              logger_error_answer r group_id exc = Raise e
              ∨ chord_error_answer r (signature_of cb)
                  ("Callback error: " +:+ repr exc) = Raise e).
Proof.
  intros Hr Hj Hd.
  assert (Hdep : ∀ culprit exc',
             callback_reason exc ≠ dependency_reason culprit exc').
  { intros culprit exc' E. unfold callback_reason, dependency_reason in E.
    apply (f_equal (String.get 0)) in E. vm_compute in E. discriminate E. }
  split; [|split; [exact Hdep|split]].
  - rewrite (unlock_chord_delay_raised _ _ _ _ _ _ _ _ _ _ _ Hr Hj Hd).
    reflexivity.
  - intros deps' E. unfold member_reason in E.
    destruct (head (_failed_join_report deps')) as [culprit|].
    + exact (Hdep _ _ E).
    + unfold callback_reason in E. now apply prefixed_differs in E.
  - intros r m. subst m.
    rewrite (unlock_chord_on_delay_raised r _ _ _ _ _ _ _ _ _ _ _ Hr Hj Hd).
    fold (callback_reason exc).
    destruct (logger_error_answer r group_id exc) as [[]|e0].
    + split; [reflexivity|]. split; [intros _; split; reflexivity|].
      cbn. intros e He. right. exact He.
    + split; [reflexivity|]. split; [discriminate|].
      cbn. intros e [= ->]. now left.
Qed.

Lemma callback_error_is_reported_witness :
  List.filter is_terminal
    (trace (run_attempt true Sample.app_done_broker_down
              Sample.first_message))
  = [ EvDelay (Signature "tasks.tsum" []) [PyInt 1; PyInt 2; PyInt 3];
      EvChordError (Signature "tasks.tsum" [])
        "Callback error: OperationalError('connection refused',)" ]
  ∧ outcome (unlock_chord_on backend_down true Sample.app_done_broker_down
               {| retries := 0 |} "g1" Sample.body None None None
               (Some Sample.header))
    = Raise Sample.OperationalError.
Proof.
  pose proof (callback_error_is_reported true Sample.app_done_broker_down
                {| retries := 0 |} "g1" Sample.body None None None
                Sample.header [PyInt 1; PyInt 2; PyInt 3]
                Sample.OperationalError eq_refl eq_refl eq_refl)
    as (H1 & _ & _ & H4).
  split; [exact H1|].
  exact (proj2 (proj1 (proj2 (H4 backend_down)) eq_refl)).
Defined.

(** C6 as it is written fails: the reason of a callback error need not
    differ from the reason of a member failure.  A join that raises an
    exception whose repr begins with "Callback error: ", with no failed
    member to name, is reported with the very reason a failed submission of
    the callback gets. *)
Lemma callback_reason_not_distinct :
  ¬ (∀ dp app app' request group_id cb interval propagate max_retries rs ret
       exc exc',
       ready (deps_of app group_id rs) = true →
       the_join (deps_of app group_id rs) (effective_propagate dp propagate)
       = Ok ret →
       apply_delay app (signature_of cb) ret = Raise exc →
       ready (deps_of app' group_id rs) = true →
       the_join (deps_of app' group_id rs) (effective_propagate dp propagate)
       = Raise exc' →
       List.filter is_chord_error
         (trace (unlock_chord dp app request group_id cb interval propagate
                   max_retries (Some rs)))
       ≠ List.filter is_chord_error
           (trace (unlock_chord dp app' request group_id cb interval
                     propagate max_retries (Some rs)))).
Proof.
  intros H.
  apply (H true app_delay_keyerror app_odd_failure {| retries := 0 |} "g1"
           Sample.body None None None Sample.header [PyInt 1]
           Sample.KeyError_x Odd_error eq_refl eq_refl eq_refl eq_refl
           eq_refl).
  vm_compute. reflexivity.
Qed.

(** ** Retry chains *)

Lemma run_attempt_cases dp app a :
  let t := trace (run_attempt dp app a) in
  t = [ EvMaybeSignature (at_callback a); EvReady (at_group_id a);
        EvApplyAsync (next_attempt a) ]
  ∨ (scheduled t = None
     ∧ count is_maybe_signature (after_terminal t) = 0
     ∧ count is_apply_async t = 0
     ∧ terminal_once t).
Proof.
  destruct a as [gid cb iv pg mr [rs|] n c]; unfold run_attempt; cbn -[unlock_chord].
  2:{ right. rewrite unlock_chord_no_result. cbn. unfold terminal_once.
      cbn. repeat split; auto. }
  destruct (ready (deps_of app gid rs)) eqn:Hr.
  - right.
    destruct (the_join (deps_of app gid rs) (effective_propagate dp pg))
      as [ret|exc] eqn:Hj.
    + destruct (apply_delay app (signature_of cb) ret) as [[]|exc] eqn:Hd.
      * rewrite (unlock_chord_dispatched _ _ _ _ _ _ _ _ _ _ Hr Hj Hd).
        unfold terminal_once. cbn. repeat split; auto.
      * rewrite (unlock_chord_delay_raised _ _ _ _ _ _ _ _ _ _ _ Hr Hj Hd).
        unfold terminal_once. cbn. repeat split; eauto.
    + rewrite (unlock_chord_join_raised _ _ _ _ _ _ _ _ _ _ Hr Hj).
      unfold terminal_once. cbn. repeat split; auto.
  - rewrite (unlock_chord_not_ready _ _ _ _ _ _ _ _ _ Hr).
    destruct (within_budget {| retries := n |} mr) eqn:Hb.
    + left. rewrite retry_within_budget by exact Hb. reflexivity.
    + right. rewrite retry_exhausted by exact Hb.
      unfold terminal_once. cbn. repeat split; auto.
Qed.

(** C1, as amended.  Along a retry chain, where an attempt runs only
    because the one before scheduled it, the callback is submitted at most
    once and an error is reported at most once: the terminal events are at
    most one, or one submission followed by the report of its failure.
    Once a terminal event happened no further call starts. *)
Theorem retry_chain_terminal_once dp apps a :
  terminal_once (lifetime dp apps a)
  ∧ count is_maybe_signature (after_terminal (lifetime dp apps a)) = 0.
Proof.
  revert a. induction apps as [|app later IH]; intros a.
  { split; [left; cbn; lia | reflexivity]. }
  cbn [lifetime].
  destruct (run_attempt_cases dp app a) as [E | (Hs & Ha & _ & Ht)].
  - rewrite E. cbn.
    destruct (IH (next_attempt a)) as [IH1 IH2]. split.
    + unfold terminal_once in *. cbn. exact IH1.
    + cbn. exact IH2.
  - rewrite Hs, app_nil_r. split; assumption.
Qed.

(** C1 as it is written fails: a call made again after the chord was
    done joins and submits the callback again. *)
Lemma reinvoked_chord_dispatches_twice :
  ¬ (∀ dp apps a, (count is_terminal (reinvoke dp apps a) ≤ 1)%nat).
Proof.
  intros H.
  specialize (H true [Sample.app_done; Sample.app_done] Sample.first_message).
  vm_compute in H. lia.
Qed.

(** ** A group that is not ready *)

Lemma run_attempt_not_ready dp app a rs :
  at_result a = Some rs →
  ready (deps_of app (at_group_id a) rs) = false →
  within_budget {| retries := at_retries a |} (at_max_retries a) = true →
  run_attempt dp app a
  = ([ EvMaybeSignature (at_callback a); EvReady (at_group_id a);
       EvApplyAsync (next_attempt a) ], Raise Retry).
Proof.
  destruct a as [gid cb iv pg mr res n c]. unfold run_attempt, next_attempt.
  cbn [at_result at_group_id at_retries at_max_retries at_callback
       at_interval at_propagate].
  intros -> Hr Hb.
  rewrite (unlock_chord_not_ready _ _ _ _ _ _ _ _ _ Hr).
  rewrite retry_within_budget by exact Hb. reflexivity.
Qed.

Lemma polling_counts n a :
  count is_join (polling n a) = 0 ∧ count is_delay (polling n a) = 0
  ∧ count is_chord_error (polling n a) = 0
  ∧ count is_apply_async (polling n a) = n.
Proof.
  revert a. induction n as [|n IH]; intros a; [repeat split|].
  destruct (IH (next_attempt a)) as (H1 & H2 & H3 & H4).
  cbn. unfold count in *. cbn. repeat split; auto.
Qed.

Lemma polling_scheduled n a a' :
  In (EvApplyAsync a') (polling n a) →
  at_countdown a' = effective_interval (at_interval a)
  ∧ at_callback a' = at_callback a.
Proof.
  revert a. induction n as [|n IH]; intros a; cbn; [tauto|].
  intros [H|[H|[H|H]]]; try discriminate.
  - injection H as <-. split; reflexivity.
  - apply IH in H. exact H.
Qed.

Lemma run_attempt_exhausted dp app a rs :
  at_result a = Some rs →
  ready (deps_of app (at_group_id a) rs) = false →
  within_budget {| retries := at_retries a |} (at_max_retries a) = false →
  run_attempt dp app a
  = ([EvMaybeSignature (at_callback a); EvReady (at_group_id a)],
     Raise MaxRetriesExceededError).
Proof.
  destruct a as [gid cb iv pg mr res n c]. unfold run_attempt.
  cbn [at_result at_group_id at_retries at_max_retries at_callback
       at_interval at_propagate].
  intros -> Hr Hb.
  rewrite (unlock_chord_not_ready _ _ _ _ _ _ _ _ _ Hr).
  rewrite retry_exhausted by exact Hb. reflexivity.
Qed.

(** Calls that find the group not ready do nothing but retry, budget or
    not. *)
Lemma not_ready_chain_quiet dp apps a rs :
  at_result a = Some rs →
  Forall (λ app, ready (deps_of app (at_group_id a) rs) = false) apps →
  count is_join (lifetime dp apps a) = 0
  ∧ count is_delay (lifetime dp apps a) = 0
  ∧ count is_chord_error (lifetime dp apps a) = 0
  ∧ (count is_apply_async (lifetime dp apps a) ≤ length apps)%nat.
Proof.
  revert a. induction apps as [|app later IH]; intros a Hres Hall.
  { cbn. repeat split; lia. }
  inversion Hall as [|? ? Hr Hlater]; subst. cbn [lifetime length].
  destruct (within_budget {| retries := at_retries a |} (at_max_retries a))
    eqn:Hb.
  - rewrite (run_attempt_not_ready dp app a rs Hres Hr Hb).
    destruct (IH (next_attempt a) Hres Hlater) as (H1 & H2 & H3 & H4).
    cbn. unfold count in *. cbn. repeat split; auto. lia.
  - rewrite (run_attempt_exhausted dp app a rs Hres Hr Hb).
    cbn. repeat split; lia.
Qed.

(** C3, as amended.  A chain of calls that all find the group not ready
    joins nothing, submits no callback and reports no error, and each call
    schedules at most one retry.  When the retries fit the budget the chain
    is a chain of pollings: one retry scheduled per call, each after the
    poll interval and with the callback as it was sent. *)
Theorem not_ready_chain_retries dp apps a rs :
  at_result a = Some rs →
  Forall (λ app, ready (deps_of app (at_group_id a) rs) = false) apps →
  let t := lifetime dp apps a in
  count is_join t = 0 ∧ count is_delay t = 0 ∧ count is_chord_error t = 0
  ∧ (count is_apply_async t ≤ length apps)%nat
  ∧ (chain_within_budget a (length apps) →
     t = polling (length apps) a
     ∧ count is_apply_async t = length apps
     ∧ ∀ a', In (EvApplyAsync a') t →
             at_countdown a' = effective_interval (at_interval a)
             ∧ at_callback a' = at_callback a).
Proof.
  intros Hres Hall t.
  destruct (not_ready_chain_quiet dp apps a rs Hres Hall) as (Q1 & Q2 & Q3 & Q4).
  do 4 (split; [assumption|]). intros Hb.
  assert (E : t = polling (length apps) a).
  { subst t. clear Q1 Q2 Q3 Q4. revert a Hres Hall Hb.
    induction apps as [|app later IH]; intros a Hres Hall Hb; [reflexivity|].
    inversion Hall as [|? ? Hr Hlater]; subst.
    assert (Hw : within_budget {| retries := at_retries a |}
                   (at_max_retries a) = true).
    { unfold within_budget, chain_within_budget in *. cbn [retries].
      destruct (at_max_retries a) as [m|]; [|reflexivity].
      apply negb_true_iff, Z.ltb_ge. cbn [length] in Hb. lia. }
    cbn [lifetime length polling].
    rewrite (run_attempt_not_ready dp app a rs Hres Hr Hw).
    cbn [trace fst scheduled]. f_equal.
    apply IH; [exact Hres | exact Hlater |].
    unfold chain_within_budget in *. cbn in *.
    destruct (at_max_retries a); [lia | exact I]. }
  rewrite E. split; [reflexivity|].
  destruct (polling_counts (length apps) a) as (H1 & H2 & H3 & H4).
  split; [exact H4|]. intros a' H. apply (polling_scheduled _ _ _ H).
Qed.

Lemma not_ready_chain_retries_witness :
  let t := lifetime true
             [Sample.app_waiting; Sample.app_waiting; Sample.app_waiting]
             (Sample.bounded_message 3) in
  count is_delay t = 0 ∧ count is_apply_async t = 3.
Proof.
  assert (Hall : Forall
            (λ app, ready (deps_of app
                             (at_group_id (Sample.bounded_message 3))
                             Sample.header) = false)
            [Sample.app_waiting; Sample.app_waiting; Sample.app_waiting]).
  { repeat constructor. }
  assert (Hb : chain_within_budget (Sample.bounded_message 3) 3).
  { unfold chain_within_budget. cbn. lia. }
  pose proof (not_ready_chain_retries true _ (Sample.bounded_message 3)
                Sample.header eq_refl Hall) as H.
  cbv zeta in H. destruct H as (_ & H2 & _ & _ & H).
  split; [exact H2 | exact (proj1 (proj2 (H Hb)))].
Defined.

(** C3 as it is written fails: with the retry budget used up, a call that
    finds the group not ready schedules nothing. *)
Lemma not_ready_call_budget_exhausted :
  ¬ (∀ dp app request group_id cb interval propagate max_retries rs,
       ready (deps_of app group_id rs) = false →
       count is_apply_async
         (trace (unlock_chord dp app request group_id cb interval propagate
                   max_retries (Some rs))) = 1).
Proof.
  intros H.
  specialize (H true Sample.app_waiting {| retries := 0 |} "g1" Sample.body
                None None (Some 0%Z) Sample.header eq_refl).
  vm_compute in H. discriminate H.
Qed.

(** ** The join *)

Lemma ready_call_joins dp app request group_id cb interval propagate
    max_retries rs :
  ready (deps_of app group_id rs) = true →
  List.filter is_join
    (trace (unlock_chord dp app request group_id cb interval propagate
              max_retries (Some rs)))
  = [ EvJoin (supports_native_join (deps_of app group_id rs)) 3%Q
        (effective_propagate dp propagate) ].
Proof.
  intros Hr.
  destruct (the_join (deps_of app group_id rs)
              (effective_propagate dp propagate)) as [ret|exc] eqn:Hj.
  - destruct (apply_delay app (signature_of cb) ret) as [[]|exc] eqn:Hd.
    + now rewrite (unlock_chord_dispatched _ _ _ _ _ _ _ _ _ _ Hr Hj Hd).
    + now rewrite (unlock_chord_delay_raised _ _ _ _ _ _ _ _ _ _ _ Hr Hj Hd).
  - now rewrite (unlock_chord_join_raised _ _ _ _ _ _ _ _ _ _ Hr Hj).
Qed.

(** C8.  The flag the join is called with is the [propagate] argument
    when one was given, and otherwise the value the configuration had when
    the task was created by [add_unlock_chord_task], whatever the
    configuration says at the time of the call. *)
Theorem default_propagate_read_at_creation app0 app request group_id cb
    interval propagate max_retries rs :
  ready (deps_of app group_id rs) = true →
  List.filter is_join
    (trace (add_unlock_chord_task app0 app request group_id cb interval
              propagate max_retries (Some rs)))
  = [ EvJoin (supports_native_join (deps_of app group_id rs)) 3%Q
        match propagate with
        | Some p => p
        | None => CELERY_CHORD_PROPAGATES app0
        end ].
Proof. intros Hr. unfold add_unlock_chord_task. now apply ready_call_joins. Qed.

Lemma default_propagate_read_at_creation_witness :
  List.filter is_join
    (trace (add_unlock_chord_task Sample.app_done
              (reconfigured false Sample.app_done) {| retries := 0 |} "g1"
              Sample.body None None None (Some Sample.header)))
  = [EvJoin false 3%Q true].
Proof.
  exact (default_propagate_read_at_creation Sample.app_done
           (reconfigured false Sample.app_done) {| retries := 0 |} "g1"
           Sample.body None None None Sample.header eq_refl).
Defined.

(** ** The callback *)



(** ** Joins over the result store *)

Lemma collect_ok s p r v :
  Store.collect s p r = Ok v → v = Store.outcome_of s r.
Proof.
  unfold Store.collect, Store.outcome_of.
  destruct (Store.get_state s r); try discriminate.
  - now intros [= <-].
  - destruct p; [discriminate | now intros [= <-]].
Qed.

Lemma collect_all_ok s p members ret :
  Store.collect_all s p members = Ok ret →
  ret = map (Store.outcome_of s) members.
Proof.
  revert ret. induction members as [|r rest IH]; intros ret; cbn.
  - now intros [= <-].
  - destruct (Store.collect s p r) as [v|] eqn:Hc; [|discriminate].
    destruct (Store.collect_all s p rest) as [vs|]; [|discriminate].
    intros [= <-]. now rewrite (collect_ok _ _ _ _ Hc), (IH vs).
Qed.

Lemma join_from_ok s elapsed timeout p members ret :
  Store.join_from s elapsed timeout p members = Ok ret →
  ret = map (Store.outcome_of s) members.
Proof.
  revert elapsed ret.
  induction members as [|r rest IH]; intros elapsed ret; cbn.
  - now intros [= <-].
  - destruct (negb _); [discriminate|].
    destruct (Store.collect s p r) as [v|] eqn:Hc; [|discriminate].
    destruct (Store.join_from s _ timeout p rest) as [vs|] eqn:Hj;
      [|discriminate].
    intros [= <-]. now rewrite (collect_ok _ _ _ _ Hc), (IH _ vs Hj).
Qed.



(** What a join over the store returns, when it returns. *)
Lemma store_join_ok s gid members timeout p ret :
  (if supports_native_join (Store.group_result s gid members)
   then join_native (Store.group_result s gid members)
   else join (Store.group_result s gid members)) timeout p = Ok ret →
  ret = map (Store.outcome_of s) members.
Proof.
  cbn. destruct (Store.native s).
  - unfold Store.join_bulk. destruct (existsb _ _); [discriminate|].
    apply collect_all_ok.
  - apply join_from_ok.
Qed.

(** C4.  Over the result store, the list a call submits the callback
    with has one entry per member of the serialized group, in the order of
    the group: the value of a member that succeeded, the exception of one
    that failed.  Neither the times at which the members finished nor the
    kind of join play a part. *)
Theorem callback_gets_outcomes_in_member_order s conf transport dp request
    group_id cb interval propagate max_retries rs c ret :
  In (EvDelay c ret)
     (trace (unlock_chord dp (Store.app s conf transport) request group_id cb
               interval propagate max_retries (Some rs))) →
  ret = map (λ r, Store.outcome_of s (result_from_tuple r)) rs
  ∧ length ret = length rs.
Proof.
  set (app := Store.app s conf transport). intros Hin.
  assert (E : ret = map (λ r, Store.outcome_of s (result_from_tuple r)) rs).
  { destruct (ready (deps_of app group_id rs)) eqn:Hr.
    - destruct (the_join (deps_of app group_id rs)
                  (effective_propagate dp propagate)) as [ret'|exc] eqn:Hj.
      + assert (ret' = map (Store.outcome_of s) (map result_from_tuple rs))
          as Hret by exact (store_join_ok _ _ _ _ _ _ Hj).
        rewrite map_map in Hret.
        destruct (apply_delay app (signature_of cb) ret') as [[]|exc] eqn:Hd.
        * rewrite (unlock_chord_dispatched _ _ _ _ _ _ _ _ _ _ Hr Hj Hd)
            in Hin.
          cbn in Hin. intuition congruence.
        * rewrite (unlock_chord_delay_raised _ _ _ _ _ _ _ _ _ _ _ Hr Hj Hd)
            in Hin.
          cbn in Hin. intuition congruence.
      + rewrite (unlock_chord_join_raised _ _ _ _ _ _ _ _ _ _ Hr Hj) in Hin.
        cbn in Hin. intuition congruence.
    - rewrite (unlock_chord_not_ready _ _ _ _ _ _ _ _ _ Hr) in Hin.
      destruct (within_budget request max_retries) eqn:Hb.
      + rewrite retry_within_budget in Hin by exact Hb.
        cbn in Hin. intuition congruence.
      + rewrite retry_exhausted in Hin by exact Hb.
        cbn in Hin. intuition congruence. }
  split; [exact E | now rewrite E, length_map].
Qed.

Lemma callback_gets_outcomes_in_member_order_witness :
  [PyInt 1; PyExc Sample.KeyError_x; PyInt 2]
  = map (λ r, Store.outcome_of Sample.store_failed (result_from_tuple r))
      Sample.header
  ∧ length [PyInt 1; PyExc Sample.KeyError_x; PyInt 2] = length Sample.header.
Proof.
  apply (callback_gets_outcomes_in_member_order Sample.store_failed true
           Sample.submits true {| retries := 0 |} "g1" Sample.body None
           (Some false) None Sample.header (Signature "tasks.tsum" [])).
  vm_compute. tauto.
Defined.



(** C10.  Over the result store, a call with an empty result list finds
    the group ready: it schedules no retry, joins, and submits the callback
    with the empty list. *)
Theorem empty_header_is_joined s conf transport dp request group_id cb
    interval propagate max_retries :
  let app := Store.app s conf transport in
  let m := unlock_chord dp app request group_id cb interval propagate
             max_retries (Some []) in
  ready (deps_of app group_id []) = true
  ∧ count is_apply_async (trace m) = 0
  ∧ List.filter is_join (trace m)
    = [EvJoin (Store.native s) 3%Q (effective_propagate dp propagate)]
  ∧ List.filter is_delay (trace m) = [EvDelay (signature_of cb) []].
Proof.
  intros app m. subst m.
  assert (Hr : ready (deps_of app group_id []) = true) by reflexivity.
  assert (Hj : the_join (deps_of app group_id [])
                 (effective_propagate dp propagate) = Ok []).
  { unfold the_join. cbn. now destruct (Store.native s). }
  split; [exact Hr|].
  destruct (apply_delay app (signature_of cb) []) as [[]|exc] eqn:Hd.
  - rewrite (unlock_chord_dispatched _ _ _ _ _ _ _ _ _ _ Hr Hj Hd).
    repeat split.
  - rewrite (unlock_chord_delay_raised _ _ _ _ _ _ _ _ _ _ _ Hr Hj Hd).
    repeat split.
Qed.

(** * Further properties of [unlock_chord] *)

(** The five ways a call with a result list can go, with the trace of each
    put in place of the call. *)
Ltac call_cases dp app request gid cb iv pg mr rs :=
  let Hr := fresh "Hr" in
  let Hj := fresh "Hj" in
  let Hd := fresh "Hd" in
  let Hb := fresh "Hb" in
  destruct (ready (deps_of app gid rs)) eqn:Hr;
  [ destruct (the_join (deps_of app gid rs) (effective_propagate dp pg))
      eqn:Hj;
    [ match type of Hj with
      | _ = Ok ?r =>
          destruct (apply_delay app (signature_of cb) r) as [[]|] eqn:Hd;
          [ rewrite (unlock_chord_dispatched dp app request gid cb iv pg mr
                       rs _ Hr Hj Hd)
          | rewrite (unlock_chord_delay_raised dp app request gid cb iv pg mr
                       rs _ _ Hr Hj Hd) ]
      end
    | rewrite (unlock_chord_join_raised dp app request gid cb iv pg mr rs _
                 Hr Hj) ]
  | rewrite (unlock_chord_not_ready dp app request gid cb iv pg mr rs Hr);
    destruct (within_budget request mr) eqn:Hb;
    [ rewrite (retry_within_budget _ _ _ _ Hb)
    | rewrite (retry_exhausted _ _ _ _ Hb) ] ].

(** X1.  A message without a result list never polls: whatever the apps
    it runs against, the only thing that happens is the resolution of the
    callback of the first call, which raises [TypeError]; nothing is
    retried. *)
Theorem call_without_result_never_polls dp app apps a :
  at_result a = None →
  lifetime dp (app :: apps) a = [EvMaybeSignature (at_callback a)]
  ∧ outcome (run_attempt dp app a) = Raise TypeError_not_iterable.
Proof.
  destruct a as [gid cb iv pg mr res n c]. cbn [at_result at_callback].
  intros ->. cbn [lifetime]. unfold run_attempt.
  cbn [at_result at_group_id at_retries at_max_retries at_callback
       at_interval at_propagate].
  rewrite unlock_chord_no_result. split; reflexivity.
Qed.

Lemma call_without_result_never_polls_witness :
  lifetime true [Sample.app_done; Sample.app_done]
    (resend "g1" Sample.body None None None None 0 1)
  = [EvMaybeSignature Sample.body]
  ∧ outcome (run_attempt true Sample.app_done
               (resend "g1" Sample.body None None None None 0 1))
    = Raise TypeError_not_iterable.
Proof.
  exact (call_without_result_never_polls true Sample.app_done
           [Sample.app_done]
           (resend "g1" Sample.body None None None None 0 1) eq_refl).
Defined.


(** X3.  The join is the only thing done inside [allow_join_result].
    The trace of a call on a ready group begins with the resolution of the
    callback, the readiness check and the second resolution, then enters
    the block, joins once and leaves the block, with nothing else in
    between; whatever follows (reading the failed-join report, logging,
    submitting the callback, reporting an error) comes after the block was
    left, also when the join raised, and the block is not entered again.  A
    call on a group that is not ready never enters it, and joins, submits
    and reports nothing. *)
Theorem join_alone_inside_allow_join_result dp app request group_id cb
    interval propagate max_retries rs :
  let t := trace (unlock_chord dp app request group_id cb interval propagate
                    max_retries (Some rs)) in
  if ready (deps_of app group_id rs)
  then ∃ after,
         t = [ EvMaybeSignature cb; EvReady group_id;
               EvMaybeSignature (signature_of cb);
               EvAllowJoin true;
               EvJoin (supports_native_join (deps_of app group_id rs)) 3%Q
                 (effective_propagate dp propagate);
               EvAllowJoin false ] ++ after
         ∧ count is_allow_join after = 0 ∧ count is_join after = 0
  else count is_allow_join t = 0 ∧ count is_join t = 0
       ∧ count is_terminal t = 0.
Proof.
  intros t. subst t.
  call_cases dp app request group_id cb interval propagate max_retries rs.
  - eexists. split; [reflexivity|]. split; reflexivity.
  - eexists. split; [reflexivity|]. split; reflexivity.
  - eexists. split; [reflexivity|]. split; reflexivity.
  - repeat split.
  - repeat split.
Qed.

(** X4.  A call that finds the group ready looks at nothing that
    concerns retries: the interval, the retry budget and the retry count
    of the request change neither its trace nor its outcome. *)
Theorem ready_call_ignores_retry_settings dp app request request' group_id
    cb interval interval' propagate max_retries max_retries' rs :
  ready (deps_of app group_id rs) = true →
  unlock_chord dp app request group_id cb interval propagate max_retries
    (Some rs)
  = unlock_chord dp app request' group_id cb interval' propagate max_retries'
      (Some rs).
Proof.
  intros Hready.
  call_cases dp app request group_id cb interval propagate max_retries rs;
    try congruence.
  - now rewrite (unlock_chord_dispatched dp app request' group_id cb
                   interval' propagate max_retries' rs _ Hr Hj Hd).
  - now rewrite (unlock_chord_delay_raised dp app request' group_id cb
                   interval' propagate max_retries' rs _ _ Hr Hj Hd).
  - now rewrite (unlock_chord_join_raised dp app request' group_id cb
                   interval' propagate max_retries' rs _ Hr Hj).
Qed.

Lemma ready_call_ignores_retry_settings_witness :
  unlock_chord true Sample.app_done {| retries := 0 |} "g1" Sample.body None
    None None (Some Sample.header)
  = unlock_chord true Sample.app_done {| retries := 9 |} "g1" Sample.body
      (Some 5%Q) None (Some 2%Z) (Some Sample.header).
Proof.
  exact (ready_call_ignores_retry_settings true Sample.app_done
           {| retries := 0 |} {| retries := 9 |} "g1" Sample.body None
           (Some 5%Q) None None (Some 2%Z) Sample.header eq_refl).
Defined.

(** X5.  A call that finds the group not ready depends on the message
    and the request only: the configured default of [propagate], the joins
    of the group result, its failed-join report and the transport of the
    callback play no part. *)
Theorem not_ready_call_depends_on_message_only dp dp' app app' request
    group_id cb interval propagate max_retries rs :
  ready (deps_of app group_id rs) = false →
  ready (deps_of app' group_id rs) = false →
  unlock_chord dp app request group_id cb interval propagate max_retries
    (Some rs)
  = unlock_chord dp' app' request group_id cb interval propagate max_retries
      (Some rs).
Proof.
  intros Hr Hr'.
  rewrite (unlock_chord_not_ready dp app request group_id cb interval
             propagate max_retries rs Hr).
  now rewrite (unlock_chord_not_ready dp' app' request group_id cb interval
                 propagate max_retries rs Hr').
Qed.

Lemma not_ready_call_depends_on_message_only_witness :
  unlock_chord true Sample.app_waiting {| retries := 0 |} "g1" Sample.body
    None None None (Some Sample.header)
  = unlock_chord false app_waiting_elsewhere {| retries := 0 |} "g1"
      Sample.body None None None (Some Sample.header).
Proof.
  exact (not_ready_call_depends_on_message_only true false Sample.app_waiting
           app_waiting_elsewhere {| retries := 0 |} "g1" Sample.body None
           None None Sample.header eq_refl eq_refl).
Defined.

(** X6.  A call reads the group result through four answers only: whether
    it is ready, whether it supports a native join, what the join in use
    answers for the timeout 3 and the flag in effect, and the first item of
    the failed-join report.  Two apps that agree on these and on the
    submission of the resolved callback give the same call; the join that is
    not in use, the joins at other arguments and the rest of the report do
    not matter. *)
Theorem call_reads_four_answers dp app app' request group_id cb interval
    propagate max_retries rs :
  let d := deps_of app group_id rs in
  let d' := deps_of app' group_id rs in
  let flag := effective_propagate dp propagate in
  ready d = ready d' →
  supports_native_join d = supports_native_join d' →
  the_join d flag = the_join d' flag →
  head (_failed_join_report d) = head (_failed_join_report d') →
  (∀ ret, apply_delay app (signature_of cb) ret
          = apply_delay app' (signature_of cb) ret) →
  unlock_chord dp app request group_id cb interval propagate max_retries
    (Some rs)
  = unlock_chord dp app' request group_id cb interval propagate max_retries
      (Some rs).
Proof.
  intros d d' flag Hready Hnative Hjoin Hhead Hdelay. subst d d' flag.
  destruct (ready (deps_of app' group_id rs)) eqn:Hr'.
  - destruct (the_join (deps_of app' group_id rs)
                (effective_propagate dp propagate)) as [ret|exc] eqn:Hj'.
    + destruct (apply_delay app' (signature_of cb) ret) as [[]|exc] eqn:Hd'.
      * rewrite (unlock_chord_dispatched dp app' request group_id cb interval
                   propagate max_retries rs _ Hr' Hj' Hd').
        rewrite <- Hdelay in Hd'.
        rewrite (unlock_chord_dispatched dp app request group_id cb interval
                   propagate max_retries rs _ Hready Hjoin Hd').
        unfold joining. now rewrite Hnative.
      * rewrite (unlock_chord_delay_raised dp app' request group_id cb
                   interval propagate max_retries rs _ _ Hr' Hj' Hd').
        rewrite <- Hdelay in Hd'.
        rewrite (unlock_chord_delay_raised dp app request group_id cb
                   interval propagate max_retries rs _ _ Hready Hjoin Hd').
        unfold joining. now rewrite Hnative.
    + rewrite (unlock_chord_join_raised dp app' request group_id cb interval
                 propagate max_retries rs _ Hr' Hj').
      rewrite (unlock_chord_join_raised dp app request group_id cb interval
                 propagate max_retries rs _ Hready Hjoin).
      unfold joining, member_reason. now rewrite Hnative, Hhead.
  - rewrite (unlock_chord_not_ready dp app' request group_id cb interval
               propagate max_retries rs Hr').
    now rewrite (unlock_chord_not_ready dp app request group_id cb interval
                   propagate max_retries rs Hready).
Qed.

Lemma call_reads_four_answers_witness :
  unlock_chord true Sample.app_failed {| retries := 0 |} "g1" Sample.body
    None None None (Some Sample.header)
  = unlock_chord true app_failed_other_join {| retries := 0 |} "g1"
      Sample.body None None None (Some Sample.header).
Proof.
  exact (call_reads_four_answers true Sample.app_failed app_failed_other_join
           {| retries := 0 |} "g1" Sample.body None None None Sample.header
           eq_refl eq_refl eq_refl eq_refl (λ _, eq_refl)).
Defined.

(** X7.  The failed-join report is read only to explain a join that
    raised, and then once: not on a group that is not ready, not after a
    join that returned, and so not when the submission of the callback
    fails. *)
Theorem failed_join_report_read_after_join_error dp app request group_id cb
    interval propagate max_retries rs :
  count is_failed_join_report
    (trace (unlock_chord dp app request group_id cb interval propagate
              max_retries (Some rs)))
  = if ready (deps_of app group_id rs)
    then match the_join (deps_of app group_id rs)
                 (effective_propagate dp propagate) with
         | Raise _ => 1
         | Ok _ => 0
         end
    else 0.
Proof.
  call_cases dp app request group_id cb interval propagate max_retries rs;
    reflexivity.
Qed.

(** X8.  A call asks once whether the group is ready, and before
    anything it does about it: the readiness check comes before the join,
    the submission of the callback, the error report and the retry, and is
    not repeated. *)
Theorem readiness_checked_once_first dp app request group_id cb interval
    propagate max_retries rs :
  let t := trace (unlock_chord dp app request group_id cb interval propagate
                    max_retries (Some rs)) in
  List.filter
    (λ e, is_ready_check e || is_join e || is_terminal e || is_apply_async e)
    t
  = EvReady group_id
      :: List.filter (λ e, is_join e || is_terminal e || is_apply_async e) t.
Proof.
  intros t. subst t.
  call_cases dp app request group_id cb interval propagate max_retries rs;
    reflexivity.
Qed.

(** * The map tasks *)

Lemma comprehension_ok {A B} (f : A → res B) (it : list A) (vs : list B) :
  snd (Maps.comprehension f it) = Ok vs
  ↔ Forall2 (λ item v, f item = Ok v) it vs.
Proof.
  revert vs. induction it as [|item rest IH]; intros vs; cbn.
  - split.
    + intros [= <-]. constructor.
    + intros H. inversion H. reflexivity.
  - destruct (f item) as [v|e] eqn:Hf; cbn.
    + destruct (Maps.comprehension f rest) as [called [ws|e]] eqn:Hc; cbn in *.
      * split.
        -- intros [= <-]. constructor; [exact Hf | now apply IH].
        -- intros H. inversion H as [|? w ? ws' Hv Hrest]; subst.
           rewrite Hf in Hv. injection Hv as <-.
           apply IH in Hrest. now injection Hrest as <-.
      * split; [discriminate|].
        intros H. inversion H as [|? w ? ws' Hv Hrest]; subst.
        apply IH in Hrest. discriminate.
    + split; [discriminate|].
      intros H. inversion H as [|? w ? ws' Hv Hrest]; subst. congruence.
Qed.

Lemma comprehension_ok_called {A B} (f : A → res B) (it : list A) vs :
  snd (Maps.comprehension f it) = Ok vs → fst (Maps.comprehension f it) = it.
Proof.
  revert vs. induction it as [|item rest IH]; intros vs; cbn; [reflexivity|].
  destruct (f item) as [v|e]; cbn; [|discriminate].
  destruct (Maps.comprehension f rest) as [called [ws|e]]; cbn in *;
    [|discriminate].
  intros _. f_equal. now apply (IH ws).
Qed.

Lemma comprehension_first_error {A B} (f : A → res B) before item after e :
  Forall (λ x, ∃ v, f x = Ok v) before →
  f item = Raise e →
  Maps.comprehension f (before ++ item :: after) = (before ++ [item], Raise e).
Proof.
  intros Hb Hf. induction Hb as [|x before [v Hv] _ IH]; cbn.
  - now rewrite Hf.
  - now rewrite Hv, IH.
Qed.

Lemma comprehension_app {A B} (f : A → res B) (a b : list A) :
  Maps.comprehension f (a ++ b)
  = match Maps.comprehension f a with
    | (called, Raise e) => (called, Raise e)
    | (called, Ok va) =>
        let '(called', r) := Maps.comprehension f b in
        (called ++ called',
         match r with Ok vb => Ok (va ++ vb) | Raise e => Raise e end)
    end.
Proof.
  induction a as [|item rest IH]; cbn.
  - now destruct (Maps.comprehension f b) as [called [vb|e]].
  - destruct (f item) as [v|e]; [|reflexivity].
    rewrite IH.
    destruct (Maps.comprehension f rest) as [called [va|e]]; [|reflexivity].
    now destruct (Maps.comprehension f b) as [called' [vb|e]].
Qed.

(** X9.  [xmap] of a registered task returns a list exactly when the task
    returns on every item; the list then has one result per item, in the
    order of the items, and the task was called on every item in that
    order. *)
Theorem xmap_results_in_item_order task_type task f it vs :
  task_type task = Ok f →
  (snd (Maps.xmap task_type task it) = Ok vs
   ↔ Forall2 (λ item v, f [item] = Ok v) it vs)
  ∧ (snd (Maps.xmap task_type task it) = Ok vs →
     fst (Maps.xmap task_type task it) = it ∧ length vs = length it).
Proof.
  intros Ht. unfold Maps.xmap. rewrite Ht. split.
  - apply comprehension_ok.
  - intros H. split; [now apply (comprehension_ok_called _ _ vs)|].
    apply comprehension_ok in H. symmetry. exact (Forall2_length _ _ _ H).
Qed.

Lemma xmap_results_in_item_order_witness :
  snd (Maps.xmap Maps.sample_registry (SigDict "tasks.inc" [])
         [PyInt 1; PyInt 5])
  = Ok [PyInt 2; PyInt 6]
  ∧ fst (Maps.xmap Maps.sample_registry (SigDict "tasks.inc" [])
           [PyInt 1; PyInt 5])
    = [PyInt 1; PyInt 5].
Proof.
  pose proof (xmap_results_in_item_order Maps.sample_registry
                (SigDict "tasks.inc" []) Maps.inc [PyInt 1; PyInt 5]
                [PyInt 2; PyInt 6] eq_refl) as [Hiff Hcalled].
  assert (H : snd (Maps.xmap Maps.sample_registry (SigDict "tasks.inc" [])
                     [PyInt 1; PyInt 5]) = Ok [PyInt 2; PyInt 6]).
  { apply Hiff. repeat constructor. }
  split; [exact H | exact (proj1 (Hcalled H))].
Defined.

(** X10.  [xmap] stops at the first item the task raises on: that
    exception is what [xmap] raises, the task was called on the items up to
    and including that one, and on none after it. *)
Theorem xmap_stops_at_first_error task_type task f before item after e :
  task_type task = Ok f →
  Forall (λ x, ∃ v, f [x] = Ok v) before →
  f [item] = Raise e →
  Maps.xmap task_type task (before ++ item :: after)
  = (before ++ [item], Raise e).
Proof.
  intros Ht Hb Hf. unfold Maps.xmap. rewrite Ht.
  now apply (comprehension_first_error (λ x, f [x])).
Qed.

Lemma xmap_stops_at_first_error_witness :
  Maps.xmap Maps.sample_registry (SigDict "tasks.inc" [])
    ([PyInt 1] ++ PyStr "two" :: [PyInt 3])
  = ([PyInt 1] ++ [PyStr "two"], Raise Maps.TypeError_inc).
Proof.
  apply (xmap_stops_at_first_error Maps.sample_registry
           (SigDict "tasks.inc" []) Maps.inc [PyInt 1] (PyStr "two")
           [PyInt 3] Maps.TypeError_inc eq_refl).
  - repeat constructor. exists (PyInt 2). reflexivity.
  - reflexivity.
Defined.

(** X11.  [xstarmap] on items that are one-argument tuples does what
    [xmap] does on the arguments: same result, same calls. *)
Theorem xstarmap_of_singletons_is_xmap task_type task it :
  Maps.xstarmap task_type task (map (λ x, [x]) it)
  = (map (λ x, [x]) (fst (Maps.xmap task_type task it)),
     snd (Maps.xmap task_type task it)).
Proof.
  unfold Maps.xstarmap, Maps.xmap.
  destruct (task_type task) as [f|e]; [|reflexivity].
  induction it as [|item rest IH]; [reflexivity|]. cbn.
  destruct (f [item]) as [v|e]; [|reflexivity].
  rewrite IH.
  now destruct (Maps.comprehension (λ item0, f [item0]) rest) as [c [vs|e]].
Qed.

(** X12.  [xmap] over two lists put end to end is [xmap] over the first
    followed, when that one returned, by [xmap] over the second: results and
    calls are appended, and an error of the first part keeps the second from
    being looked at. *)
Theorem xmap_app task_type task (a b : list pyval) :
  Maps.xmap task_type task (a ++ b)
  = match Maps.xmap task_type task a with
    | (called, Raise e) => (called, Raise e)
    | (called, Ok va) =>
        let '(called', r) := Maps.xmap task_type task b in
        (called ++ called',
         match r with Ok vb => Ok (va ++ vb) | Raise e => Raise e end)
    end.
Proof.
  unfold Maps.xmap. destruct (task_type task) as [f|e]; [|reflexivity].
  apply comprehension_app.
Qed.

(** * The legacy group task *)

Section group_run_facts.
Variable maybe_signature : callback → callback.
Variable clone : callback → list pyval → callback.
Variable apply_async : callback → res unit.
Variable parent : bool.

Local Abbreviation send_all := (LegacyGroup.send_all apply_async).
Local Abbreviation Group_run :=
  (LegacyGroup.Group_run maybe_signature clone apply_async parent).

Lemma send_all_ok group_id taskit :
  Forall (λ s, apply_async s = Ok tt) taskit →
  send_all group_id taskit
  = (map (λ s, LegacyGroup.ApplyAsync s group_id false) taskit, Ok tt).
Proof.
  induction 1 as [|s rest Hs _ IH]; cbn; [reflexivity|].
  now rewrite Hs, IH.
Qed.

Lemma send_all_refused group_id before s after e :
  Forall (λ s, apply_async s = Ok tt) before →
  apply_async s = Raise e →
  send_all group_id (before ++ s :: after)
  = (map (λ s, LegacyGroup.ApplyAsync s group_id false) (before ++ [s]),
     Raise e).
Proof.
  intros Hb Hs. induction Hb as [|s' before Hs' _ IH]; cbn.
  - now rewrite Hs.
  - now rewrite Hs', IH.
Qed.

Lemma send_all_shape group_id taskit :
  Forall (λ a, ∃ s, a = LegacyGroup.ApplyAsync s group_id false)
    (fst (send_all group_id taskit))
  ∧ (length (fst (send_all group_id taskit)) ≤ length taskit)%nat.
Proof.
  induction taskit as [|s rest [IH1 IH2]]; cbn; [split; [constructor|lia]|].
  destruct (apply_async s) as [[]|e]; cbn.
  - destruct (send_all group_id rest) as [t r]; cbn in *.
    split; [constructor; eauto | lia].
  - split; [repeat constructor; eauto | lia].
Qed.

(** X13.  When the broker takes every task, [Group.run] sends each task
    of the group once, in the order of the group, resolved and cloned with
    the partial arguments, under the group id and with [add_to_parent]
    off, between taking and releasing one producer; it returns the result
    made from the tuple, and adds it to the trail of the parent when asked
    to and a parent task is running. *)
Theorem group_run_sends_every_task tasks result group_id partial_args
    add_to_parent :
  Forall (λ task,
            apply_async (clone (maybe_signature task) partial_args) = Ok tt)
    tasks →
  Group_run tasks result group_id partial_args add_to_parent
  = (LegacyGroup.Acquire
       :: map (λ task,
                 LegacyGroup.ApplyAsync
                   (clone (maybe_signature task) partial_args) group_id false)
            tasks
       ++ [LegacyGroup.Release]
       ++ (if add_to_parent && parent
           then [LegacyGroup.AddTrail (result_from_tuple result)] else []),
     Ok (result_from_tuple result)).
Proof.
  intros Hall. unfold LegacyGroup.Group_run.
  rewrite send_all_ok.
  - now rewrite map_map.
  - apply Forall_map. exact Hall.
Qed.

(** X14.  When the broker refuses a task, [Group.run] raises what the
    broker raised: the tasks before it were sent, none after it is, the
    producer is released all the same, and nothing is added to the trail of
    the parent. *)
Theorem group_run_stops_at_refusal before task after result group_id
    partial_args add_to_parent e :
  Forall (λ task,
            apply_async (clone (maybe_signature task) partial_args) = Ok tt)
    before →
  apply_async (clone (maybe_signature task) partial_args) = Raise e →
  Group_run (before ++ task :: after) result group_id partial_args
    add_to_parent
  = (LegacyGroup.Acquire
       :: map (λ task,
                 LegacyGroup.ApplyAsync
                   (clone (maybe_signature task) partial_args) group_id false)
            (before ++ [task])
       ++ [LegacyGroup.Release],
     Raise e).
Proof.
  intros Hb Ht. unfold LegacyGroup.Group_run.
  rewrite map_app. cbn [map].
  rewrite (send_all_refused group_id _ _ _ e).
  - now rewrite !map_app, map_map.
  - apply Forall_map. exact Hb.
  - exact Ht.
Qed.


(** X16.  [Group.run] adds the result to the trail of the parent exactly
    when it sent the whole group, was asked to, and a parent task is
    running. *)
Theorem group_run_trail tasks result group_id partial_args add_to_parent :
  let r := Group_run tasks result group_id partial_args add_to_parent in
  length (List.filter LegacyGroup.is_add_trail (fst r))
  = match snd r with
    | Ok _ => if add_to_parent && parent then 1 else 0
    | Raise _ => 0
    end.
Proof.
  intros r. subst r. unfold LegacyGroup.Group_run.
  pose proof (send_all_shape group_id
                (map (λ task, clone (maybe_signature task) partial_args)
                   tasks)) as [Hshape _].
  destruct (send_all group_id _) as [t [[]|e]]; cbn in *.
  - rewrite List.filter_app.
    assert (Hnone : List.filter LegacyGroup.is_add_trail t = []).
    { induction Hshape as [|a t [s ->] _ IH]; [reflexivity | exact IH]. }
    rewrite Hnone. now destruct (add_to_parent && parent).
  - rewrite List.filter_app.
    assert (Hnone : List.filter LegacyGroup.is_add_trail t = []).
    { induction Hshape as [|a t [s ->] _ IH]; [reflexivity | exact IH]. }
    now rewrite Hnone.
Qed.

End group_run_facts.

Lemma group_run_sends_every_task_witness :
  LegacyGroup.Group_run signature_of LegacyGroup.prepend_args
    LegacyGroup.refuses_bad true
    [SigDict "tasks.add" [PyInt 1]; SigDict "tasks.mul" [PyInt 2]]
    (ResultTuple "r1") "g1" [PyInt 9] true
  = ([ LegacyGroup.Acquire;
       LegacyGroup.ApplyAsync (Signature "tasks.add" [PyInt 9; PyInt 1])
         "g1" false;
       LegacyGroup.ApplyAsync (Signature "tasks.mul" [PyInt 9; PyInt 2])
         "g1" false;
       LegacyGroup.Release;
       LegacyGroup.AddTrail (MkAsyncResult "r1") ],
     Ok (MkAsyncResult "r1")).
Proof.
  apply (group_run_sends_every_task signature_of LegacyGroup.prepend_args
           LegacyGroup.refuses_bad true
           [SigDict "tasks.add" [PyInt 1]; SigDict "tasks.mul" [PyInt 2]]
           (ResultTuple "r1") "g1" [PyInt 9] true).
  repeat constructor.
Defined.

Lemma group_run_stops_at_refusal_witness :
  LegacyGroup.Group_run signature_of LegacyGroup.prepend_args
    LegacyGroup.refuses_bad true
    ([SigDict "tasks.add" []] ++ SigDict "tasks.bad" [] ::
       [SigDict "tasks.mul" []])
    (ResultTuple "r1") "g1" [] true
  = ([ LegacyGroup.Acquire;
       LegacyGroup.ApplyAsync (Signature "tasks.add" []) "g1" false;
       LegacyGroup.ApplyAsync (Signature "tasks.bad" []) "g1" false;
       LegacyGroup.Release ],
     Raise Sample.OperationalError).
Proof.
  apply (group_run_stops_at_refusal signature_of LegacyGroup.prepend_args
           LegacyGroup.refuses_bad true [SigDict "tasks.add" []]
           (SigDict "tasks.bad" []) [SigDict "tasks.mul" []]
           (ResultTuple "r1") "g1" [] true Sample.OperationalError).
  - repeat constructor.
  - reflexivity.
Defined.
